(** * lss-cfar: the state-space model (model.py) and the detection script

    A shallow embedding of [model.py] and of
    [yolov8_sam/detect_multi_object_SAM.py].  Calls into the tensor
    library are kept as operations the definitions take as arguments;
    the control flow, the caching, the error propagation and the
    arithmetic written in the repository itself are embedded as they
    stand. *)

From Stdlib Require Import ZArith Lia.
From HB Require Import structures.
From mathcomp Require Import boot order algebra.

Set Implicit Arguments.
Unset Strict Implicit.
Unset Printing Implicit Defensive.

(* Python integers are Stdlib's [Z]; [%Z] is taken by ssrint. *)
Delimit Scope Z_scope with ZZ.

(** ** Outcomes of a call

    A Python call returns a value or raises; [Diverge] stands for a
    [while] loop of the model that used up its fuel (no call of the
    program ends that way: see [krylov_returns_or_raises]). *)

Inductive exn : Type :=
| AssertionError
| ValueError
| IndexError
| LinAlgError
| RuntimeError
| TypeError.

Inductive result (T : Type) : Type :=
| Ok (v : T)
| Raise (e : exn)
| Diverge.

Arguments Ok {T} v.
Arguments Raise {T} e.
Arguments Diverge {T}.

Definition bind {T U : Type} (c : result T) (k : T -> result U) : result U :=
  match c with
  | Ok v => k v
  | Raise e => Raise e
  | Diverge => Diverge
  end.

Definition is_ok {T : Type} (c : result T) : bool :=
  if c is Ok _ then true else false.

Notation "'do' x <- c ; k" := (bind c (fun x => k))
  (at level 200, x name, c at level 100, k at level 200, right associativity).

(** ** Python slicing [s[:k]] for an integer [k] that may be negative *)

Definition py_slice_to {T : Type} (k : Z) (s : seq T) : seq T :=
  if (0 <=? k)%ZZ then take (Z.to_nat k) s
  else take (size s - Z.to_nat (- k)) s.

(** ** krylov (model.py, lines 19-41)

    The tensor [x] of shape (..., N, l) is kept as the sequence of its
    [l] slices along the last axis; [mm] is [A_ @ A_] and [mv] is the
    action of [A_ @ _] on one such slice, so that [A_ @ _x] maps [mv A_]
    over the slices and [torch.cat(..., dim=-1)] is [++]. *)

Section Krylov.

Variables (mat vec : Type).
Variable mm : mat -> mat -> mat.
Variable mv : mat -> vec -> vec.

(** The [while not done] loop, entered with [done = False]; [fuel]
    bounds the number of iterations.  The first branch is the last
    iteration ([done = True]: no squaring, the loop exits). *)
Fixpoint krylov_loop (fuel : nat) (L : Z) (A_ : mat) (x : seq vec)
  : result (seq vec) :=
  match fuel with
  | O => Diverge
  | S fuel' =>
      let l := Z.of_nat (size x) in
      if (L - l <=? l)%ZZ then
        let _x := py_slice_to (L - l) x in
        let _x := map (mv A_) _x in
        Ok (x ++ _x)
      else
        let _x := map (mv A_) x in
        krylov_loop fuel' L (mm A_ A_) (x ++ _x)
  end.

(** The loop doubles the width of [x] each time round, so [|L| + 1]
    rounds are more than it ever takes. *)
Definition krylov_fuel (L : Z) : nat := (Z.abs_nat L).+1.

Definition krylov (L : Z) (A : mat) (b : vec) : result (seq vec) :=
  let x := [:: b] in
  do x <- (if (L =? 1)%ZZ then Ok x else krylov_loop (krylov_fuel L) L A x);
  if (Z.of_nat (size x) =? L)%ZZ then Ok x else Raise AssertionError.

(** The naive Krylov sequence: [b], then each next vector by one more
    multiplication by [A]. *)
Fixpoint krylov_naive (L : nat) (A : mat) (b : vec) : seq vec :=
  match L with
  | O => [::]
  | S L' => b :: krylov_naive L' A (mv A b)
  end.

End Krylov.

(** Matrix power by repeated multiplication, [A^k]. *)
Definition mx_pow (R : pzSemiRingType) (N : nat) (A : 'M[R]_N) (k : nat)
  : 'M[R]_N :=
  iter k (mulmx A) (1%:M)%R.

(** A 2x2 integer matrix and a vector, for running the definitions. *)
Definition krylov_example_A : 'M[int]_2 :=
  \matrix_(i, j) (if (i == j :> nat) then 2%:R else 1%:R)%R.
Definition krylov_example_b : 'cV[int]_2 := \col_i (i%:R + 1%:R)%R.

(** ** Sequencing over a list, and element-wise binary operations *)

Fixpoint mapM {T U : Type} (f : T -> result U) (s : seq T) : result (seq U) :=
  match s with
  | [::] => Ok [::]
  | x :: s' => do y <- f x; do ys <- mapM f s'; Ok (y :: ys)
  end.

(** [map2 f s t] is the element-wise [f] on two tensors of one shape
    along their first axis. *)
Definition map2 {A B C : Type} (f : A -> B -> C) (s : seq A) (t : seq B)
  : seq C :=
  [seq f p.1 p.2 | p <- zip s t].

(** ** The tensor library

    [torch_ops R] collects the calls into torch, einops and numpy that
    model.py makes on tensors it never looks inside: [tensor] is such a
    tensor and [R] is the type of numbers.  Tensors of shape (L, B, H)
    and (L, B), on which [LSSLModel.forward] works element by element,
    are nested sequences of numbers. *)

Record torch_ops (R : Type) : Type := TorchOps {
  tensor : Type;
  ctensor : Type;                              (* complex tensors *)
  t_add : tensor -> tensor -> tensor;          (* a + b, broadcasting *)
  t_sub : tensor -> tensor -> tensor;          (* a - b *)
  t_mul : tensor -> tensor -> tensor;          (* a * b *)
  t_scale : R -> tensor -> tensor;             (* python float * tensor *)
  t_matmul : tensor -> tensor -> tensor;       (* a @ b *)
  t_unsqueeze_last : tensor -> tensor;         (* a.unsqueeze(-1) *)
  t_squeeze_last : tensor -> tensor;           (* a.squeeze(-1) *)
  t_unsqueeze0 : tensor -> tensor;             (* a.unsqueeze(0) *)
  t_unsqueeze1 : tensor -> tensor;             (* a.unsqueeze(1), on a slice *)
  t_shape : tensor -> seq nat;                 (* a.shape *)
  t_view : tensor -> seq nat -> tensor;        (* a.view(shape) *)
  t_new_zeros : tensor -> seq nat -> tensor;   (* a.new_zeros(shape) *)
  t_new_ones : tensor -> seq nat -> tensor;    (* a.new_ones(shape) *)
  t_eye : nat -> tensor;                       (* torch.eye(N) *)
  t_as_tensor2 : seq (seq R) -> tensor;        (* torch.as_tensor, 2-d *)
  t_as_tensor1 : seq R -> tensor;              (* torch.as_tensor, 1-d *)
  t_broadcast : tensor -> tensor -> tensor * tensor;
                                               (* torch.broadcast_tensors *)
  t_iter : tensor -> seq tensor;               (* iteration over axis 0 *)
  t_first_col : tensor -> tensor;              (* a[..., :1] *)
  t_solve : tensor -> tensor -> result tensor; (* torch.linalg.solve *)
  t_stack : seq tensor -> result tensor;       (* torch.stack(xs, dim=0) *)
  t_rearrange_nm : tensor -> tensor;           (* 'n ... m -> ... m n' *)
  t_rearrange_m_first : tensor -> tensor;      (* '... m l -> m ... l', on a slice *)
  t_move_first_last : tensor -> tensor;        (* transpose(0, -1), on a slice *)
  t_rearrange_hm : tensor -> tensor;           (* 'l b h m -> l b (h m)', on a slice *)
  t_of_slab : seq (seq R) -> tensor;           (* a (B, H) slice as a tensor *)
  t_zeros_like : tensor -> tensor;             (* the zeros F.pad appends *)
  t_rfft : nat -> seq tensor -> seq ctensor;   (* torch.fft.rfft(_, n, dim=-1) *)
  t_irfft : nat -> seq ctensor -> seq tensor;  (* torch.fft.irfft(_, n, dim=-1) *)
  c_mul : ctensor -> ctensor -> ctensor;       (* product of spectra *)
  t_gelu : tensor -> tensor;                   (* nn.GELU() *)
  t_dropout : R -> seq tensor -> seq tensor;   (* nn.Dropout(p) *)
  t_mean : seq R -> R;                         (* mean over the last axis *)
  t_sigmoid : R -> R;                          (* F.sigmoid *)
  t_sqrt : R -> R                              (* ** .5 *)
}.

(** ** triangular_toeplitz_multiply (model.py, lines 9-17)

    [u] and [v] are the sequences of their slices along the last axis.
    [rfft n] and [irfft n] are the library transforms of length [n]
    along that axis, [cmul] the product of two slices of spectra. *)

Section Toeplitz.

Variables (T Tc : Type).
Variable zeros_like : T -> T.
Variable rfft : nat -> seq T -> seq Tc.
Variable irfft : nat -> seq Tc -> seq T.
Variable cmul : Tc -> Tc -> Tc.

(** [F.pad(u, (0, n))]: [n] zero slices appended on the last axis. *)
Definition pad_right (u : seq T) (n : nat) : seq T :=
  match u with
  | [::] => [::]
  | u0 :: _ => u ++ nseq n (zeros_like u0)
  end.

Definition triangular_toeplitz_multiply (u v : seq T) : seq T :=
  let n := size u in
  let u_expand := pad_right u n in
  let v_expand := pad_right v n in
  let u_f := rfft (2 * n) u_expand in
  let v_f := rfft (2 * n) v_expand in
  let uv_f := map2 cmul u_f v_f in
  let output := take n (irfft (2 * n) uv_f) in
  output.

End Toeplitz.


(** ** hippo (model.py, lines 44-52)

    [np.arange(N, dtype=np.float64)] holds the integers 0 .. N-1, kept
    here as integers; [sqrt] is [** .5]. *)

Section Hippo.

Variable R : fieldType.
Variable sqrt : R -> R.

(** [np.meshgrid(x, y)] with the default 'xy' indexing. *)
Definition meshgrid (T : Type) (x y : seq T) : seq (seq T) * seq (seq T) :=
  (nseq (size y) x, [seq nseq (size x) q | q <- y]).

Definition hippo (N : nat) : seq (seq R) * seq (seq R) :=
  let Q : seq int := [seq Posz k | k <- iota 0 N] in
  let Rv := [seq sqrt ((2 * q + 1)%R%:~R)%R | q <- Q] in
  let ji := meshgrid Q Q in
  let j := ji.1 in
  let i := ji.2 in
  let W := map2 (map2 (fun i j : int =>
                         if (i < j)%R then ((-1) ^ (i - j))%R else 1%R)) i j in
  let A := map2 (fun r row => [seq (r * w)%R | w <- row]) Rv W in
  let A := [seq map2 *%R row Rv | row <- A] in
  let B := [seq [:: r] | r <- Rv] in
  let A := [seq [seq (- a)%R | a <- row] | row <- A] in
  (A, B).

End Hippo.

(** ** AdaptiveTransition and LegTTransitionDense (model.py, lines 54-175) *)

Section Model.

Variable R : realFieldType.
Variable O : torch_ops R.

Local Notation tensor := (tensor O).
Local Notation slab := (seq (seq R)).
Local Notation tensor3 := (seq (seq (seq R))).

(** The buffers registered by [AdaptiveTransition.__init__]. *)
Record transition : Type := Transition {
  tr_N : nat;
  tr_A : tensor;
  tr_B : tensor;
  tr_I : tensor
}.

(** [AdaptiveTransition.__init__]; [[:, 0]] is taken on the array. *)
Definition AdaptiveTransition_init (N : nat) : transition :=
  let AB := hippo (t_sqrt O) N in
  let A := t_as_tensor2 O AB.1 in
  let B := t_as_tensor1 O [seq nth 0%R row 0 | row <- AB.2] in
  let I := t_eye O N in
  Transition N A B I.

(** [forward_mult]: [delta] is a tensor at every call in the file, hence
    the [unsqueeze]; [transpose] keeps its default [False]. *)
Definition forward_mult (self : transition) (u delta : tensor) : tensor :=
  let delta := t_unsqueeze_last delta in
  let A_ := tr_A self in
  let x := t_squeeze_last (t_matmul A_ (t_unsqueeze_last u)) in
  let x := t_add u (t_mul delta x) in
  x.

(** [inverse_mult]: one [torch.linalg.solve] per pair of the two
    broadcast tensors; the first solve that raises ends the loop. *)
Definition inverse_mult (self : transition) (u delta : tensor)
  : result tensor :=
  let delta := t_unsqueeze_last (t_unsqueeze_last delta) in
  let _A := t_sub (tr_I self) (t_mul delta (tr_A self)) in
  let bc := t_broadcast _A (t_unsqueeze_last u) in
  do xs <- mapM (fun p : tensor * tensor =>
                   do x_ <- t_solve p.1 (t_first_col p.2);
                   Ok (t_squeeze_last x_))
                (zip (t_iter bc.1) (t_iter bc.2));
  do x <- t_stack xs;
  Ok x.

(** The pairs [inverse_mult] solves, in the order of the loop. *)
Definition solve_pairs (self : transition) (u delta : tensor)
  : seq (tensor * tensor) :=
  let delta := t_unsqueeze_last (t_unsqueeze_last delta) in
  let _A := t_sub (tr_I self) (t_mul delta (tr_A self)) in
  let bc := t_broadcast _A (t_unsqueeze_last u) in
  zip (t_iter bc.1) (t_iter bc.2).

Definition forward_diff (self : transition) (d u v : tensor) : tensor :=
  let v := t_mul d v in
  let v := t_mul (t_unsqueeze_last v) (tr_B self) in
  let x := forward_mult self u d in
  let x := t_add x v in
  x.

Definition backward_diff (self : transition) (d u v : tensor)
  : result tensor :=
  let v := t_mul d v in
  let v := t_mul (t_unsqueeze_last v) (tr_B self) in
  let x := t_add u v in
  do x <- inverse_mult self x d;
  Ok x.

Definition bilinear (self : transition) (dt u v : tensor) (alpha : R)
  : result tensor :=
  let x := forward_mult self u (t_scale (1 - alpha)%R dt) in
  let v := t_mul dt v in
  let v := t_mul (t_unsqueeze_last v) (tr_B self) in
  let x := t_add x v in
  do x <- inverse_mult self x (t_scale alpha dt);
  Ok x.

(** The default [alpha=.5]. *)
Definition alpha_default : R := (2%:R^-1)%R.

Definition gbt_A (self : transition) (dt : tensor) (alpha : R)
  : result tensor :=
  let dims := size (t_shape dt) in
  let I := t_view (tr_I self) ([:: tr_N self] ++ nseq dims 1 ++ [:: tr_N self]) in
  do A <- bilinear self dt I (t_new_zeros dt (t_shape dt)) alpha;
  let A := t_rearrange_nm A in
  Ok A.

Definition gbt_B (self : transition) (dt : tensor) (alpha : R)
  : result tensor :=
  do B <- bilinear self dt (t_new_zeros dt (t_shape dt ++ [:: tr_N self]))
                   (t_new_ones dt [:: 1]) alpha;
  Ok B.

(** ** StateSpace (model.py, lines 178-267) *)

Record StateSpace : Type := MkStateSpace {
  ss_H : nat;
  ss_N : nat;
  ss_transition : transition;
  ss_M : nat;
  ss_C : tensor;
  ss_D : tensor;
  ss_dt : tensor;
  ss_k : option (seq tensor);       (* cached Krylov kernel, by columns *)
  ss_dropout : R;
  ss_output_linear : tensor -> slab (* nn.Linear(M * H, H), on a slice *)
}.

(** What [torch.randn], [torch.rand] and [nn.Linear] draw for one
    layer: [C], [D], the timescales [dt] and the output projection. *)
Record layer_draw : Type := LayerDraw {
  draw_C : tensor;
  draw_D : tensor;
  draw_dt : tensor;
  draw_linear : tensor -> slab
}.

(** [StateSpace.__init__]; [order] defaults to [-1]. *)
Definition StateSpace_init (d : nat) (order : Z) (channels : nat)
    (dropout : R) (w : layer_draw) : StateSpace :=
  let H := d in
  let N := if (0 <? order)%ZZ then Z.to_nat order else d in
  MkStateSpace H N (AdaptiveTransition_init N) channels
    (draw_C w) (draw_D w) (draw_dt w) None dropout (draw_linear w).

Definition set_k (self : StateSpace) (k : option (seq tensor)) : StateSpace :=
  MkStateSpace (ss_H self) (ss_N self) (ss_transition self) (ss_M self)
    (ss_C self) (ss_D self) (ss_dt self) k (ss_dropout self)
    (ss_output_linear self).

(** [A @ x] on one slice [x] along the last axis of a (..., N, l) tensor. *)
Definition matvec (A x : tensor) : tensor :=
  t_squeeze_last (t_matmul A (t_unsqueeze_last x)).

Definition linear_system_from_krylov (self : StateSpace) (u : tensor3)
    (k : seq tensor) : seq tensor :=
  let k := [seq matvec (ss_C self) c | c <- k] in          (* self.C @ k *)
  let k := [seq t_rearrange_m_first c | c <- k] in
  (* k.to(u) changes dtype and device only *)
  let k := [seq t_unsqueeze1 c | c <- k] in
  let v := [seq t_unsqueeze0 (t_of_slab O s) | s <- u] in
  let y := triangular_toeplitz_multiply
             (@t_zeros_like R O) (@t_rfft R O) (@t_irfft R O) (@c_mul R O) k v in
  let y := [seq t_move_first_last s | s <- y] in
  let y := map2 (fun y_l u_l =>
                   t_add y_l (t_mul (t_unsqueeze_last (t_of_slab O u_l))
                                    (ss_D self))) y u in
  y.

(** The test at the head of [StateSpace.forward]:
    [self.k is None or u.shape[0] > self.k.shape[-1]]. *)
Definition needs_kernel (self : StateSpace) (L : nat) : bool :=
  match ss_k self with
  | None => true
  | Some k => size k < L
  end.

Definition StateSpace_forward (self : StateSpace) (u : tensor3)
  : result (tensor3 * StateSpace) :=
  let L := size u in
  do self <-
    (if needs_kernel self L then
       do A <- gbt_A (ss_transition self) (ss_dt self) alpha_default;
       do B <- gbt_B (ss_transition self) (ss_dt self) alpha_default;
       do k <- krylov (@t_matmul R O) matvec (Z.of_nat L) A B;
       Ok (set_k self (Some k))
     else Ok self);
  match ss_k self with
  | None => Raise TypeError   (* [None[..., :L]]; the kernel was just set *)
  | Some k =>
      let y := linear_system_from_krylov self u (take L k) in
      let y := t_dropout (ss_dropout self) [seq t_gelu s | s <- y] in
      let y := [seq t_rearrange_hm s | s <- y] in
      let y := [seq ss_output_linear self s | s <- y] in
      Ok (y, self)
  end.

(** The kernel is re-derived on every change of length: the sentence
    "re-derived whenever the input sequence length changes from the
    length the cache was built for", as it is worded.  A cached kernel
    has as many columns as the length it was built for. *)
Definition rederived_on_every_length_change : Prop :=
  forall (self self' : StateSpace) (u y : tensor3) (k0 : seq tensor),
    ss_k self = Some k0 -> size u <> size k0 ->
    StateSpace_forward self u = Ok (y, self') ->
    exists A B k,
      [/\ gbt_A (ss_transition self) (ss_dt self) alpha_default = Ok A,
          gbt_B (ss_transition self) (ss_dt self) alpha_default = Ok B,
          krylov (@t_matmul R O) matvec (Z.of_nat (size u)) A B = Ok k
        & ss_k self' = Some k].

(** ** LSSLModel (model.py, lines 269-312) *)

Record LSSLModel : Type := MkLSSLModel {
  lm_d : nat;
  lm_layers : seq StateSpace;
  lm_norms : seq (seq R -> seq R)   (* nn.LayerNorm(d), on one hidden vector *)
}.

(** [x + y] on (L, B, H) tensors of one shape. *)
Definition add3 (x y : tensor3) : tensor3 :=
  map2 (map2 (map2 +%R)) x y.

(** The [for layer, norm in zip(self.layers, self.norms)] loop; it
    returns the last [x] and the layers as the calls left them. *)
Fixpoint residual_loop (lns : seq (StateSpace * (seq R -> seq R)))
    (x : tensor3) : result (tensor3 * seq StateSpace) :=
  match lns with
  | [::] => Ok (x, [::])
  | (layer, norm) :: lns' =>
      do r <- StateSpace_forward layer [seq [seq norm h | h <- s] | s <- x];
      let x := add3 x r.1 in
      do r' <- residual_loop lns' x;
      Ok (r'.1, r.2 :: r'.2)
  end.

(** [x.max(dim=-1, keepdim=True)[0]] on one row: torch raises on an
    empty reduction axis. *)
Definition row_max (row : seq R) : result R :=
  match row with
  | [::] => Raise IndexError
  | x :: xs => Ok (foldl Order.max x xs)
  end.

(** Lines 301-303 on one row. *)
Definition threshold_row (row : seq R) : result (seq R) :=
  do max_val <- row_max row;
  let threshold := (99%:R / 100%:R * max_val)%R in
  Ok [seq (if (threshold <= x)%R then x else 0%R) | x <- row].

(** The input as the loop first sees it:
    [x.unsqueeze(-1).expand(-1, -1, self.d)]. *)
Definition expand_hidden (d : nat) (x : slab) : tensor3 :=
  [seq [seq nseq d v | v <- row] | row <- x].

(** What the loop hands on: [F.sigmoid(x.mean(dim=-1)) * x_init]. *)
Definition gate (x : tensor3) (x_init : slab) : slab :=
  let x := [seq [seq t_mean O h | h <- row] | row <- x] in
  let x := [seq [seq t_sigmoid O v | v <- row] | row <- x] in
  map2 (map2 *%R) x x_init.

Definition LSSLModel_forward (self : LSSLModel) (x : slab)
  : result (slab * LSSLModel) :=
  let x_init := x in
  let x := expand_hidden (lm_d self) x in
  let lns := zip (lm_layers self) (lm_norms self) in
  do r <- residual_loop lns x;
  let x := gate r.1 x_init in
  do x <- mapM threshold_row x;
  Ok (x, MkLSSLModel (lm_d self)
           (r.2 ++ drop (size r.2) (lm_layers self)) (lm_norms self)).

(** [LSSLModel.__init__]: [draws i] and [norms i] are the parameters
    of layer [i] and of its LayerNorm. *)
Definition LSSLModel_init (num_layers d : nat) (order : Z) (channels : nat)
    (dropout : R) (draws : nat -> layer_draw) (norms : nat -> seq R -> seq R)
  : LSSLModel :=
  MkLSSLModel d
    [seq StateSpace_init d order channels dropout (draws i)
       | i <- iota 0 num_layers]
    [seq norms i | i <- iota 0 num_layers].

(** How the process ends. *)
Inductive exit : Type :=
| ExitNormally
| ExitUncaught (e : exn)
| NoExit.

(** The [__main__] block: four layers of width and order 256, dropout
    0.1, one channel, run once on [input_tensor]; nothing there catches
    an exception. *)
Definition main (draws : nat -> layer_draw) (norms : nat -> seq R -> seq R)
    (input_tensor : slab) : exit :=
  let num_layers := 4 in
  let model :=
    LSSLModel_init num_layers 256 256 1 (10%:R^-1)%R draws norms in
  match LSSLModel_forward model input_tensor with
  | Ok _ => ExitNormally
  | Raise e => ExitUncaught e
  | Diverge => NoExit
  end.

End Model.

Arguments row_max {R} row.
Arguments threshold_row {R} row.

(** ** A library instance over the rationals

    For running the definitions: state order 1, one hidden feature and
    one channel, so that a tensor is the list of its entries over the
    batch, and a spectrum is kept as the signal it is the transform of
    (the product of two spectra is then the cyclic convolution).  GELU
    and dropout are the identity and the sigmoid is a rational
    stand-in. *)

Module RatOps.

Local Open Scope ring_scope.

Definition bzip (f : rat -> rat -> rat) (a b : seq rat) : seq rat :=
  match a, b with
  | [:: x], _ => [seq f x y | y <- b]
  | _, [:: y] => [seq f x y | x <- a]
  | _, _ => map2 f a b
  end.

Definition solve (a b : seq rat) : result (seq rat) :=
  if has (fun x => x == 0) a then Raise LinAlgError
  else Ok (bzip (fun x y => y / x) a b).

Definition stack (xs : seq (seq rat)) : result (seq rat) :=
  if xs is [::] then Raise RuntimeError else Ok (flatten xs).

(** Cyclic convolution of two signals of length [n], entry [i]. *)
Definition cyclic_entry (n : nat) (a b : seq (seq rat)) (i : nat) : seq rat :=
  foldr (bzip +%R) [:: 0]
    [seq bzip *%R (nth [:: 0] a j) (nth [:: 0] b ((i + n - j) %% n))
       | j <- iota 0 n].

Definition cyclic (a b : seq (seq rat)) : seq (seq rat) :=
  [seq cyclic_entry (size a) a b i | i <- iota 0 (size a)].

Definition sqrt (x : rat) : rat :=
  (Nat.sqrt `|numq x|)%:R / (Nat.sqrt `|denq x|)%:R.

Definition ops : torch_ops rat :=
  {| tensor := seq rat;
     ctensor := seq (seq rat);
     t_add := bzip +%R;
     t_sub := bzip (fun x y => x - y);
     t_mul := bzip *%R;
     t_scale := fun c a => [seq c * x | x <- a];
     t_matmul := bzip *%R;
     t_unsqueeze_last := id;
     t_squeeze_last := id;
     t_unsqueeze0 := id;
     t_unsqueeze1 := id;
     t_shape := fun a => [:: size a];
     t_view := fun a _ => a;
     t_new_zeros := fun _ _ => [:: 0];
     t_new_ones := fun _ _ => [:: 1];
     t_eye := fun _ => [:: 1];
     t_as_tensor2 := fun m => flatten m;
     t_as_tensor1 := id;
     t_broadcast := fun a b => (a, b);
     t_iter := fun a => [seq [:: x] | x <- a];
     t_first_col := id;
     t_solve := solve;
     t_stack := stack;
     t_rearrange_nm := id;
     t_rearrange_m_first := id;
     t_move_first_last := id;
     t_rearrange_hm := id;
     t_of_slab := fun s => flatten s;
     t_zeros_like := fun a => [seq 0 | _ <- a];
     t_rfft := fun n x => [:: take n x];
     t_irfft := fun n X => take n (head [::] X);
     c_mul := cyclic;
     t_gelu := id;
     t_dropout := fun _ y => y;
     t_mean := fun h => foldr +%R 0 h / (size h)%:R;
     t_sigmoid := fun x => (1 + x / (1 + `|x|)) / 2%:R;
     t_sqrt := sqrt |}.

Definition draws (i : nat) : layer_draw ops :=
  LayerDraw (O := ops) [:: 1] [:: i%:R] [:: 2%:R / 3%:R]
            (fun y => [seq [:: v] | v <- y]).

Definition norms (i : nat) (h : seq rat) : seq rat := h.

(** One layer of width 1, and an input of length 3 and batch 2. *)
Definition model : LSSLModel ops := LSSLModel_init 1 1 1 1 0 draws norms.

Definition input : seq (seq rat) :=
  [:: [:: 1; -2%:R]; [:: -1; -3%:R]; [:: 0; 1]].

(** A layer whose timescale makes [I - dt/2 A] singular ([A = -1],
    [dt = -2]), and a model that has it as its second layer. *)
Definition singular_draws (i : nat) : layer_draw ops :=
  if i == 1%N then
    LayerDraw (O := ops) [:: 1] [:: 0] [:: -2%:R] (fun y => [seq [:: v] | v <- y])
  else draws i.

Definition singular_model : LSSLModel ops :=
  LSSLModel_init 2 1 1 1 0 singular_draws norms.

(** The first layer of [model] after the run on [input] (length 3),
    and a shorter input (length 2). *)
Definition layer_before : StateSpace ops :=
  StateSpace_init 1 1 1 0 (draws 0).

Definition u3 : seq (seq (seq rat)) :=
  [:: [:: [:: 1]; [:: 2%:R]]; [:: [:: 1]; [:: 0]]; [:: [:: 0]; [:: 0]]].

Definition u2 : seq (seq (seq rat)) :=
  [:: [:: [:: 1]; [:: 2%:R]]; [:: [:: 1]; [:: 0]]].

Definition layer_after3 : StateSpace ops :=
  match StateSpace_forward layer_before u3 with
  | Ok r => r.2
  | _ => layer_before
  end.

(** The run of [model] on [input], what it returns and how it leaves
    the model. *)
Definition run : result (seq (seq rat) * LSSLModel ops) :=
  LSSLModel_forward model input.

Definition out : seq (seq rat) :=
  match run with Ok r => r.1 | _ => [::] end.

Definition model_after : LSSLModel ops :=
  match run with Ok r => r.2 | _ => model end.

End RatOps.
(** * Proofs

    ** krylov *)

Section KrylovFacts.

Variables (mat vec : Type).
Variable mm : mat -> mat -> mat.
Variable mv : mat -> vec -> vec.
Hypothesis mv_mm : forall P Q v, mv (mm P Q) v = mv P (mv Q v).

Local Notation naive := (krylov_naive mv).

Lemma size_krylov_naive L A b : size (naive L A b) = L.
Proof. by elim: L b => [|L IH] b //=; rewrite IH. Qed.

Lemma krylov_naive_add m n A b :
  naive (m + n) A b = naive m A b ++ naive n A (iter m (mv A) b).
Proof.
elim: m b => [|m IH] b //=.
by rewrite IH -iterSr.
Qed.

Lemma map_krylov_naive k l A b :
  map (iter l (mv A)) (naive k A b) = naive k A (iter l (mv A) b).
Proof.
elim: k b => [|k IH] b //=.
by rewrite IH -iterSr -iterS.
Qed.

Lemma take_krylov_naive k l A b :
  k <= l -> take k (naive l A b) = naive k A b.
Proof.
move=> /subnKC <-.
by rewrite krylov_naive_add take_size_cat // size_krylov_naive.
Qed.

Lemma krylov_loop_naive fuel (Ln l : nat) A A_ b :
  0 < l -> l < Ln -> Ln - l < fuel ->
  (forall v, mv A_ v = iter l (mv A) v) ->
  krylov_loop mm mv fuel (Z.of_nat Ln) A_ (naive l A b) = Ok (naive Ln A b).
Proof.
elim: fuel l A_ => [|fuel IH] l A_ // l0 lL Hf HA /=.
rewrite size_krylov_naive.
have HAm : map (mv A_) =1 map (iter l (mv A)) by apply: eq_map.
case: Z.leb_spec => Hc.
- have Hk : (Ln - l <= l)%N by apply/leP; move/ltP: lL; rewrite -minusE; lia.
  rewrite /py_slice_to.
  have -> : (0 <=? Z.of_nat Ln - Z.of_nat l)%ZZ = true.
    by apply/Z.leb_le; move/ltP: lL; lia.
  have -> : Z.to_nat (Z.of_nat Ln - Z.of_nat l) = (Ln - l)%N.
    by rewrite -minusE; move/ltP: lL; lia.
  rewrite take_krylov_naive // HAm map_krylov_naive -krylov_naive_add.
  by rewrite subnKC // ltnW.
- rewrite HAm map_krylov_naive -krylov_naive_add.
  have Hll : (l + l < Ln)%N by apply/ltP; rewrite -plusE; lia.
  apply: IH => //.
  + by rewrite addn_gt0 l0.
  + move/ltP: Hf; move/ltP: Hll; move/ltP: l0 => H1 H2 H3.
    by apply/ltP; move: H1 H2 H3; rewrite -!minusE -!plusE; lia.
  + by move=> v; rewrite mv_mm !HA iterD.
Qed.

Lemma krylov_is_naive (Ln : nat) A b :
  0 < Ln -> krylov mm mv (Z.of_nat Ln) A b = Ok (naive Ln A b).
Proof.
move=> L0; rewrite /krylov.
case: Z.eqb_spec => [H1|H1].
- have -> : Ln = 1 by lia.
  by [].
- have L1 : 1 < Ln by apply/ltP; move/ltP: L0; lia.
  rewrite -[ [:: b] ]/(naive 1 A b) (@krylov_loop_naive (krylov_fuel (Z.of_nat Ln)) Ln 1 A A b) //=.
  + rewrite /krylov_fuel Zabs2Nat.id; apply/ltP; rewrite -minusE; lia.
  + by rewrite size_krylov_naive Z.eqb_refl.
Qed.

End KrylovFacts.

(** The loop never uses up its fuel when it is entered as [krylov]
    enters it, whatever the operations are. *)
Lemma krylov_loop_returns (mat vec : Type) (mm : mat -> mat -> mat)
    (mv : mat -> vec -> vec) fuel (L : Z) A_ (x : seq vec) :
  0 < size x -> 0 < fuel -> (L - Z.of_nat (size x) < Z.of_nat fuel)%ZZ ->
  krylov_loop mm mv fuel L A_ x <> Diverge.
Proof.
elim: fuel A_ x => [|fuel IH] A_ x x0 // _ Hf /=.
case: Z.leb_spec => Hc //.
move/ltP: x0 => x0.
apply: IH; rewrite ?size_cat ?size_map ?addn_gt0 -?plusE.
- by apply/orP; left; apply/ltP.
- by apply/ltP; lia.
- by lia.
Qed.

Lemma krylov_returns_or_raises (mat vec : Type) (mm : mat -> mat -> mat)
    (mv : mat -> vec -> vec) (L : Z) A (b : vec) :
  krylov mm mv L A b <> Diverge.
Proof.
rewrite /krylov; case: Z.eqb_spec => [H|_]; rewrite /bind; first by case: ifP.
case E: krylov_loop => [x| |] //; first by case: ifP.
case: (@krylov_loop_returns _ _ mm mv _ L A [:: b] _ _ _ E) => //=.
by rewrite /krylov_fuel; lia.
Qed.

Section KrylovMatrix.

Variables (R : pzSemiRingType) (N : nat).
Implicit Types (A : 'M[R]_N) (b : 'cV[R]_N).
Local Open Scope ring_scope.

Lemma mx_pow_mul A k b : mx_pow A k *m b = iter k (mulmx A) b.
Proof.
by elim: k => [|k IH]; rewrite /mx_pow /= ?mul1mx // -mulmxA -/(mx_pow A k) IH.
Qed.

Lemma nth_krylov_naive L A b k :
  (k < L)%N -> nth 0 (krylov_naive mulmx L A b) k = iter k (mulmx A) b.
Proof.
elim: L b k => [|L IH] b [|k] //= kL.
by rewrite IH // -iterSr.
Qed.


End KrylovMatrix.


(** ** Sequencing *)

Lemma mapM_ok (T U : Type) (f : T -> result U) (s : seq T) (t : seq U) :
  mapM f s = Ok t ->
  size t = size s /\
  forall (d : T) (d' : U) i, i < size s -> f (nth d s i) = Ok (nth d' t i).
Proof.
elim: s t => [|x s IH] t /=; first by case=> <-.
case Ex: (f x) => [y| |] //=; case Es: (mapM f s) => [ys| |] //= [<-].
have [Hs Hn] := IH _ Es; split; first by rewrite /= Hs.
by move=> d d' [|i] //=; apply: Hn.
Qed.

Lemma mapM_total (T U : Type) (f : T -> result U) (s : seq T) :
  (forall x, exists y, f x = Ok y) -> exists t, mapM f s = Ok t.
Proof.
move=> Hf; elim: s => [|x s [t IH]] /=; first by exists [::].
by have [y ->] := Hf x; rewrite IH /=; exists (y :: t).
Qed.

Lemma size_map2 (A B C : Type) (f : A -> B -> C) s t :
  size (map2 f s t) = minn (size s) (size t).
Proof. by rewrite /map2 size_map size_zip. Qed.

Lemma nth_map2 (A B C : Type) (f : A -> B -> C) a b c s t i :
  i < size s -> i < size t ->
  nth c (map2 f s t) i = f (nth a s i) (nth b t i).
Proof.
move=> Hs Ht; rewrite /map2 (nth_map (a, b)) ?size_zip ?leq_min ?Hs //.
elim: s t i Hs Ht => [|x s IH] [|y t] [|i] //= Hs Ht.
exact: IH.
Qed.

(** ** LSSLModel.forward: the threshold *)

Section GateFacts.

Variable R : realFieldType.
Variable O : torch_ops R.
Local Open Scope ring_scope.

Lemma foldl_max_spec (x : R) (xs : seq R) :
  foldl Order.max x xs \in x :: xs /\
  forall y, y \in x :: xs -> y <= foldl Order.max x xs.
Proof.
elim: xs x => [|z xs IH] x /=.
  by split; [rewrite mem_seq1 | move=> y; rewrite mem_seq1 => /eqP ->].
have [Hin Hle] := IH (Order.max x z); split.
- move: Hin; rewrite !in_cons => /orP [/eqP ->|->]; last by rewrite !orbT.
  by case: (Order.TotalTheory.leP x z) => _; rewrite eqxx ?orbT.
- move=> y; rewrite !in_cons => /or3P [/eqP ->|/eqP ->|Hy].
  + apply: Order.POrderTheory.le_trans (Hle _ (mem_head _ _)).
    by rewrite Order.TotalTheory.le_max Order.POrderTheory.lexx.
  + apply: Order.POrderTheory.le_trans (Hle _ (mem_head _ _)).
    by rewrite Order.TotalTheory.le_max Order.POrderTheory.lexx orbT.
  + by apply: Hle; rewrite in_cons Hy orbT.
Qed.

(** The value [row_max] returns is the maximum of the row. *)
Lemma row_max_spec (row : seq R) (m : R) :
  row_max row = Ok m -> m \in row /\ forall y, y \in row -> y <= m.
Proof. by case: row => [|x xs] //= [<-]; apply: foldl_max_spec. Qed.

End GateFacts.

Section ForwardGate.

Variable R : realFieldType.
Variable O : torch_ops R.
Local Open Scope ring_scope.
Import Order.POrderTheory Order.TotalTheory.

(** What [threshold_row] leaves in each place of a row. *)
Lemma threshold_row_spec (row out : seq R) :
  threshold_row row = Ok out ->
  exists m, [/\ m \in row, forall y, y \in row -> y <= m, size out = size row
    & forall b, (b < size row)%N ->
        nth 0 out b = if 99%:R / 100%:R * m <= nth 0 row b
                      then nth 0 row b else 0].
Proof.
rewrite /threshold_row; case Em: (row_max row) => [m| |] //= [<-].
have [Hin Hle] := row_max_spec Em.
exists m; split=> //; first by rewrite size_map.
by move=> b Hb; rewrite (nth_map 0).
Qed.

(** [gate] is the sigmoid of the mean, times the input, place by place. *)
Lemma gate_eq (x : seq (seq (seq R))) (x_init : seq (seq R)) :
  gate O x x_init =
  map2 (map2 *%R)
    [seq [seq t_sigmoid O (t_mean O h) | h <- row] | row <- x] x_init.
Proof.
rewrite /gate; congr (map2 _ _ _); rewrite -map_comp.
by apply: eq_map => row /=; rewrite -map_comp.
Qed.

(** A call of [LSSLModel.forward] that returns, taken apart. *)
Lemma LSSLModel_forward_inv (self self' : LSSLModel O) (x out : seq (seq R)) :
  LSSLModel_forward self x = Ok (out, self') ->
  exists x_last layers',
    [/\ residual_loop (zip (lm_layers self) (lm_norms self))
          (expand_hidden (lm_d self) x) = Ok (x_last, layers'),
        mapM threshold_row (gate O x_last x) = Ok out
      & self' = MkLSSLModel (lm_d self)
                  (layers' ++ drop (size layers') (lm_layers self))
                  (lm_norms self)].
Proof.
rewrite /LSSLModel_forward.
case Er: residual_loop => [[x_last layers']| |] //=.
case Et: mapM => [o| |] //= [<- <-].
by exists x_last, layers'.
Qed.


(** A row whose maximum is not positive is set to zero. *)
Lemma threshold_row_nonpos (row out : seq R) (m : R) :
  threshold_row row = Ok out ->
  m \in row -> (forall y, y \in row -> y <= m) -> m <= 0 ->
  out = nseq (size row) 0.
Proof.
move=> /threshold_row_spec [m' [Hin' Hle' Hs Hn]] Hin Hle Hm.
have Em : m' = m by apply/le_anti; rewrite Hle // Hle'.
apply: (@eq_from_nth _ 0); first by rewrite size_nseq.
move=> b; rewrite Hs => Hb; rewrite nth_nseq Hb Hn // Em.
have Hy : nth 0 row b <= m by apply: Hle; apply: mem_nth.
by case: ifP => // Hc; apply/le_anti/andP; split; lra.
Qed.


End ForwardGate.

Lemma RatOps_run_ok :
  LSSLModel_forward RatOps.model RatOps.input
  = Ok (RatOps.out, RatOps.model_after).
Proof.
rewrite /RatOps.out /RatOps.model_after -/RatOps.run.
have: is_ok RatOps.run by vm_compute.
by case: RatOps.run => [[o m]| |].
Qed.



(** ** LSSLModel.forward: the residual stack *)

Section Residual.

Variable R : realFieldType.
Variable O : torch_ops R.
Implicit Types (x : seq (seq (seq R))) (lns : seq (StateSpace O * (seq R -> seq R))).

Lemma residual_loop_cat lns1 lns2 x :
  residual_loop (lns1 ++ lns2) x =
  (do r <- residual_loop lns1 x;
   do r' <- residual_loop lns2 r.1;
   Ok (r'.1, r.2 ++ r'.2)).
Proof.
elim: lns1 x => [|[layer norm] lns1 IH] x /=.
  by case: (residual_loop lns2 x) => [[a b]| |].
case: StateSpace_forward => [[y layer']| |] //=.
rewrite IH; case: (residual_loop lns1 _) => [[x1 l1]| |] //=.
by case: (residual_loop lns2 x1) => [[x2 l2]| |].
Qed.

(** The values of [x] at the head of each iteration: [xs] has one more
    element than there are layers, starts at the loop's first [x], ends
    at its last, and each step adds the layer's output on the normed
    [x]. *)
Lemma residual_loop_steps lns x x_last ls' :
  residual_loop lns x = Ok (x_last, ls') ->
  exists xs,
    [/\ size xs = (size lns).+1, size ls' = size lns,
        nth [::] xs 0 = x, nth [::] xs (size lns) = x_last
      & forall i dl dn, i < size lns ->
          exists y,
            StateSpace_forward (nth (dl, dn) lns i).1
              [seq [seq (nth (dl, dn) lns i).2 h | h <- s]
                 | s <- nth [::] xs i]
              = Ok (y, nth dl ls' i) /\
            nth [::] xs i.+1 = add3 (nth [::] xs i) y].
Proof.
elim: lns x x_last ls' => [|[layer norm] lns IH] x x_last ls' /=.
  by case=> <- <-; exists [:: x]; split.
case Ef: StateSpace_forward => [[y layer']| |] //=.
case Er: residual_loop => [[x1 l1]| |] //= [<- <-].
have [xs [Hs Hl H0 Hlast Hstep]] := IH _ _ _ Er.
exists (x :: xs); split=> //=; rewrite ?Hs ?Hl //.
move=> [|i] dl dn /=; first by rewrite H0 => _; exists y.
by rewrite ltnS => /Hstep.
Qed.


End Residual.


(** ** StateSpace.forward: the cached kernel *)

Lemma krylov_size (mat vec : Type) (mm : mat -> mat -> mat)
    (mv : mat -> vec -> vec) (L : Z) A b (k : seq vec) :
  krylov mm mv L A b = Ok k -> Z.of_nat (size k) = L.
Proof.
rewrite /krylov; case: (if _ then _ else _) => [x| |] //=.
by case: Z.eqb_spec => // H [<-].
Qed.

Section Cache.

Variable R : realFieldType.
Variable O : torch_ops R.
Implicit Types (self : StateSpace O) (u y : seq (seq (seq R))).

(** A call of [StateSpace.forward] that returns either derived the
    kernel afresh and stored it, or left the layer as it was. *)
Lemma StateSpace_forward_inv self self' u y :
  StateSpace_forward self u = Ok (y, self') ->
  if needs_kernel self (size u) then
    exists A B k,
      [/\ gbt_A (ss_transition self) (ss_dt self) (alpha_default R) = Ok A,
          gbt_B (ss_transition self) (ss_dt self) (alpha_default R) = Ok B,
          krylov (@t_matmul R O) (@matvec R O) (Z.of_nat (size u)) A B = Ok k
        & self' = set_k self (Some k)]
  else self' = self.
Proof.
rewrite /StateSpace_forward; case: ifP => Hn /=.
- case EA: gbt_A => [A| |] //=; case EB: gbt_B => [B| |] //=.
  case Ek: krylov => [k| |] //= [_ <-].
  by exists A, B, k.
- by case: (ss_k self) => [k|] //= [_ <-].
Qed.

Lemma StateSpace_forward_keeps self self' u y k0 :
  ss_k self = Some k0 -> size u <= size k0 ->
  StateSpace_forward self u = Ok (y, self') -> self' = self.
Proof.
move=> Hk Hs /StateSpace_forward_inv.
by rewrite /needs_kernel Hk ltnNge Hs.
Qed.


End Cache.

Lemma RatOps_layer_after3_kernel :
  omap size (ss_k RatOps.layer_after3) = Some 3.
Proof. by vm_compute. Qed.

Lemma RatOps_forward_u2_ok :
  is_ok (StateSpace_forward RatOps.layer_after3 RatOps.u2).
Proof. by vm_compute. Qed.



(** ** Exceptions raised by the linear solve *)

Lemma mapM_raise (T U : Type) (f : T -> result U) (pre post : seq T)
    (p : T) (e : exn) :
  all (fun q => is_ok (f q)) pre -> f p = Raise e ->
  mapM f (pre ++ p :: post) = Raise e.
Proof.
elim: pre => [|q pre IH] /=; first by move=> _ ->.
by case: (f q) => [y| |] //= Hpre Hp; rewrite IH.
Qed.

Section Exceptions.

Variable R : realFieldType.
Variable O : torch_ops R.
Implicit Types (self : transition O) (layer : StateSpace O) (e : exn).

Lemma inverse_mult_raises self u delta pre p post e :
  solve_pairs self u delta = pre ++ p :: post ->
  all (fun q => is_ok (t_solve q.1 (t_first_col q.2))) pre ->
  t_solve p.1 (t_first_col p.2) = Raise e ->
  inverse_mult self u delta = Raise e.
Proof.
rewrite /inverse_mult /solve_pairs => -> Hpre Hp.
rewrite (@mapM_raise _ _ _ pre post p e) //.
- by apply: sub_all Hpre => q; case: t_solve.
- by rewrite Hp.
Qed.

Lemma residual_loop_raises (lns1 lns2 : seq (StateSpace O * (seq R -> seq R)))
    layer norm x x_i ls e :
  residual_loop lns1 x = Ok (x_i, ls) ->
  StateSpace_forward layer [seq [seq norm h | h <- s] | s <- x_i] = Raise e ->
  residual_loop (lns1 ++ (layer, norm) :: lns2) x = Raise e.
Proof. by move=> H1 H2; rewrite residual_loop_cat H1 /= H2. Qed.

(** C7: nothing catches what [torch.linalg.solve] raises.  The first
    solve of [inverse_mult] that raises [e] makes [inverse_mult] raise
    [e]; so do then its callers [backward_diff] and [bilinear], the
    callers [gbt_A] and [gbt_B] of [bilinear], [StateSpace.forward]
    whenever it derives its kernel, [LSSLModel.forward] at the first
    layer that raises, and the [__main__] block ends on the uncaught
    exception. *)
Theorem solve_exception_propagates e :
  (forall self u delta pre p post,
     solve_pairs self u delta = pre ++ p :: post ->
     all (fun q => is_ok (t_solve q.1 (t_first_col q.2))) pre ->
     t_solve p.1 (t_first_col p.2) = Raise e ->
     inverse_mult self u delta = Raise e) /\
  (forall self d u v,
     inverse_mult self
       (t_add u (t_mul (t_unsqueeze_last (t_mul d v)) (tr_B self))) d
       = Raise e ->
     backward_diff self d u v = Raise e) /\
  (forall self dt u v alpha,
     inverse_mult self
       (t_add (forward_mult self u (t_scale (1 - alpha)%R dt))
              (t_mul (t_unsqueeze_last (t_mul dt v)) (tr_B self)))
       (t_scale alpha dt) = Raise e ->
     bilinear self dt u v alpha = Raise e) /\
  (forall self dt alpha,
     bilinear self dt
       (t_view (tr_I self)
          ([:: tr_N self] ++ nseq (size (t_shape dt)) 1 ++ [:: tr_N self]))
       (t_new_zeros dt (t_shape dt)) alpha = Raise e ->
     gbt_A self dt alpha = Raise e) /\
  (forall self dt alpha,
     bilinear self dt (t_new_zeros dt (t_shape dt ++ [:: tr_N self]))
       (t_new_ones dt [:: 1]) alpha = Raise e ->
     gbt_B self dt alpha = Raise e) /\
  (forall layer u,
     needs_kernel layer (size u) ->
     gbt_A (ss_transition layer) (ss_dt layer) (alpha_default R) = Raise e \/
     (is_ok (gbt_A (ss_transition layer) (ss_dt layer) (alpha_default R)) /\
      gbt_B (ss_transition layer) (ss_dt layer) (alpha_default R) = Raise e) ->
     StateSpace_forward layer u = Raise e) /\
  (forall (self : LSSLModel O) x lns1 lns2 layer norm x_i ls,
     zip (lm_layers self) (lm_norms self) = lns1 ++ (layer, norm) :: lns2 ->
     residual_loop lns1 (expand_hidden (lm_d self) x) = Ok (x_i, ls) ->
     StateSpace_forward layer [seq [seq norm h | h <- s] | s <- x_i]
       = Raise e ->
     LSSLModel_forward self x = Raise e) /\
  (forall (draws : nat -> layer_draw O) norms input_tensor,
     LSSLModel_forward
       (LSSLModel_init 4 256 256 1 (10%:R^-1)%R draws norms) input_tensor
       = Raise e ->
     main draws norms input_tensor = ExitUncaught e).
Proof.
do !split.
- by move=> self u delta pre p post; apply: inverse_mult_raises.
- by move=> self d u v; rewrite /backward_diff => ->.
- by move=> self dt u v alpha; rewrite /bilinear => ->.
- by move=> self dt alpha; rewrite /gbt_A => ->.
- by move=> self dt alpha; rewrite /gbt_B => ->.
- move=> layer u Hn; rewrite /StateSpace_forward Hn.
  by case=> [->|[]] //; case: gbt_A => [A| |] //= _ ->.
- move=> self x lns1 lns2 layer norm x_i ls Hz H1 H2.
  by rewrite /LSSLModel_forward Hz (residual_loop_raises _ H1 H2).
- by move=> draws norms input_tensor; rewrite /main => ->.
Qed.

End Exceptions.

Lemma solve_exception_propagates_witness :
  LSSLModel_forward RatOps.singular_model RatOps.input = Raise LinAlgError.
Proof.
have [H1 [_ [H3 [H4 [_ [H6 [H7 _]]]]]]] :=
  solve_exception_propagates RatOps.ops LinAlgError.
pose l0 := StateSpace_init 1 1 1 0 (RatOps.singular_draws 0).
pose l1 := StateSpace_init 1 1 1 0 (RatOps.singular_draws 1).
have: is_ok (residual_loop [:: (l0, RatOps.norms 0)]
               (expand_hidden 1 RatOps.input)) by vm_compute.
case Er: (residual_loop _ _) => [[x_i ls]|e|] Hok; [|by []|by []].
apply: (H7 RatOps.singular_model RatOps.input
          [:: (l0, RatOps.norms 0)] [::] l1 (RatOps.norms 1) x_i ls).
- by [].
- exact: Er.
apply: H6; first by [].
left; apply: H4; apply: H3.
set u := t_add _ _; set d := t_scale _ _.
apply: (H1 (ss_transition l1) u d [::] ([:: 0%R], [:: 2%:R%R]) [::]).
- vm_compute; reflexivity.
- by [].
- vm_compute; reflexivity.
Defined.

